(** * A shallow embedding of the gateway reverse proxy ([main.go])

    The program is one Go file: a start-up loop that fills the in-memory
    usage registry from a MongoDB cursor, one chi route ["/{appID}"] whose
    handler forwards the request to [http://localhost:<port><path>] and then
    counts the request, and the helper [proxyRequest].

    Modelling choices, all taken from the source:
    - Go's [int] is the 64-bit two's-complement integer of the usual build
      targets; it is a [Z] in the range of [MinInt .. MaxInt] and [++] wraps.
    - [map[int]*App] is a [gmap Z App].  Every pointer stored in the map comes
      from a [var app App] declared inside the body of the load loop, hence a
      fresh allocation per iteration, and the handler never copies a pointer
      from one key to another: no two keys share a record, so the map of
      pointers is a map of values.
    - The collaborators the code calls but does not define (the HTTP client,
      the MongoDB collection, [http.NewRequest]'s validation and
      [textproto]'s key canonicalisation) are parameters: every theorem holds
      whatever they answer.
    - The handler is written in a small state monad over the registry, the
      [http.ResponseWriter] and the trace of observable events (outbound
      exchange, mutex operations, persistence writes, log lines). *)

From Stdlib Require Import ZArith String Ascii List Lia.
From Stdlib Require Import DecimalString DecimalPos.
From stdpp Require Import base option list gmap strings fin_maps.

Local Open Scope string_scope.
Local Open Scope Z_scope.

(** ** Machine integers *)

Module GoInt.

(** [strconv.intSize] on a 64-bit target. *)
Definition intSize : Z := 64.

Definition MaxInt : Z := 2 ^ (intSize - 1) - 1.
Definition MinInt : Z := - 2 ^ (intSize - 1).
Definition MaxUint64 : Z := 2 ^ 64 - 1.

(** The value an [int] holds after an arithmetic result [z]. *)
Definition wrap (z : Z) : Z :=
  (z - MinInt) mod 2 ^ intSize + MinInt.

(** [x++] on an [int]. *)
Definition incr (x : Z) : Z := wrap (x + 1).

Definition inRange (z : Z) : Prop := MinInt <= z <= MaxInt.

End GoInt.

(** ** [strconv] and [fmt]

    [strconv.Atoi] and [fmt.Sprintf] belong to Go's library; they are
    written out after the library's source, since the handler's first
    branch is the error of [Atoi]. *)

Inductive Result (A : Type) : Type :=
| Ok (a : A)
| Err (e : string).
Arguments Ok {A} a.
Arguments Err {A} e.

Definition isErr {A} (r : Result A) : bool :=
  match r with Ok _ => false | Err _ => true end.

Module strconv.

Definition ErrSyntax : string := "invalid syntax".
Definition ErrRange : string := "value out of range".

(** [ch -= '0'] on a byte. *)
Definition digitOf (ch : ascii) : Z :=
  (Z.of_N (N_of_ascii ch) - 48) mod 256.

Definition isSign (ch : ascii) : bool :=
  (Ascii.eqb ch "-" || Ascii.eqb ch "+")%bool.

(** The loop of [Atoi]'s fast path: [n = n*10 + int(ch)], a syntax error
    on the first byte that is not a decimal digit. *)
Fixpoint fastDigits (s : string) (n : Z) : Result Z :=
  match s with
  | EmptyString => Ok n
  | String ch s' =>
      let d := digitOf ch in
      if 9 <? d then Err ErrSyntax else fastDigits s' (n * 10 + d)
  end.

(** The loop of [ParseUint(s, 10, 64)]: as above, and a range error as soon
    as the value leaves [uint64]. *)
Fixpoint uintDigits (s : string) (n : Z) : Result Z :=
  match s with
  | EmptyString => Ok n
  | String ch s' =>
      let d := digitOf ch in
      if 9 <? d then Err ErrSyntax
      else if GoInt.MaxUint64 <? n * 10 + d then Err ErrRange
      else uintDigits s' (n * 10 + d)
  end.

Definition ParseUint (s : string) : Result Z :=
  match s with
  | EmptyString => Err ErrSyntax
  | _ => uintDigits s 0
  end.

(** [ParseInt(s, 10, 0)]. *)
Definition ParseInt (s : string) : Result Z :=
  match s with
  | EmptyString => Err ErrSyntax
  | String ch rest =>
      let neg := Ascii.eqb ch "-" in
      let body := if isSign ch then rest else s in
      match ParseUint body with
      | Err e => Err e
      | Ok un =>
          let cutoff := 2 ^ (GoInt.intSize - 1) in
          if (negb neg && (cutoff <=? un))%bool then Err ErrRange
          else if (neg && (cutoff <? un))%bool then Err ErrRange
          else Ok (if neg then - un else un)
      end
  end.

(** [strconv.Atoi]: the fast path for short strings, [ParseInt] for the
    rest. *)
Definition Atoi (s : string) : Result Z :=
  let sLen := Z.of_nat (String.length s) in
  if ((0 <? sLen) && (sLen <? 19))%bool then
    match s with
    | EmptyString => Err ErrSyntax
    | String ch rest =>
        let body := if isSign ch then rest else s in
        match body with
        | EmptyString => Err ErrSyntax
        | _ =>
            match fastDigits body 0 with
            | Err e => Err e
            | Ok n => Ok (if Ascii.eqb ch "-" then - n else n)
            end
        end
    end
  else ParseInt s.

End strconv.

(** [fmt.Sprintf("%d", n)]. *)
Definition itoa (n : Z) : string := NilZero.string_of_int (Z.to_int n).


(** ** Data model *)

(** [type App struct { Port int; Count int }] *)
Record App := mkApp { Port : Z; Count : Z }.

(** [type UsageData struct { sync.Mutex; Apps map[int]*App }].  The mutex
    carries no data: its operations are events of the trace. *)
Record UsageData := mkUsageData { Apps : gmap Z App }.

(** [var usageData = UsageData{Apps: make(map[int]*App)}] *)
Definition emptyUsageData : UsageData := {| Apps := ∅ |}.

(** ** [net/http] values *)

(** [http.Header] is [map[string][]string]. *)
Abbreviation Header := (gmap string (list string)).

(** [h[k]]: the values stored under [k], none when the key is absent. *)
Definition headerValues (h : Header) (k : string) : list string :=
  default [] (h !! k).

(** The inbound [*http.Request]: method, [URL.Path], [URL.RawQuery], header
    and body, and the value chi bound to the route parameter [appID]. *)
Record Request := mkRequest {
  reqMethod : string;
  reqPath : string;
  reqRawQuery : string;
  reqHeader : Header;
  reqBody : string;
  reqAppID : string
}.

(** The outbound [*http.Request] as the source fills it: the three arguments
    of [http.NewRequest] and the header assigned afterwards. *)
Record OutRequest := mkOutRequest {
  outMethod : string;
  outURL : string;
  outHeader : Header;
  outBody : string
}.

(** The backend's [*http.Response]. *)
Record Response := mkResponse {
  StatusCode : Z;
  respHeader : Header;
  respBody : string
}.

(** What the client has been sent through the [http.ResponseWriter]: the
    header map, the status line once written, the body bytes. *)
Record ResponseWriter := mkResponseWriter {
  wHeader : Header;
  wStatus : option Z;
  wBody : string
}.

Definition newResponseWriter : ResponseWriter :=
  {| wHeader := ∅; wStatus := None; wBody := "" |}.

Definition StatusBadRequest : Z := 400.
Definition StatusInternalServerError : Z := 500.
Definition StatusOK : Z := 200.

(** ** Observable events *)

Inductive Event :=
| EvDo (req : OutRequest)          (* http.DefaultClient.Do(req) *)
| EvLock                           (* usageData.Lock() *)
| EvUnlock                         (* usageData.Unlock() *)
| EvUpdateOne (port count : Z)     (* collection.UpdateOne: $set count where port *)
| EvLog (msg : string).            (* log.Printf *)

(** The outbound exchanges of a trace. *)
Fixpoint forwards (tr : list Event) : list OutRequest :=
  match tr with
  | [] => []
  | EvDo req :: tr' => req :: forwards tr'
  | _ :: tr' => forwards tr'
  end.

(** The persistence writes of a trace, as (port, count). *)
Fixpoint persistWrites (tr : list Event) : list (Z * Z) :=
  match tr with
  | [] => []
  | EvUpdateOne p c :: tr' => (p, c) :: persistWrites tr'
  | _ :: tr' => persistWrites tr'
  end.

(** The log lines of a trace. *)
Fixpoint logLines (tr : list Event) : list string :=
  match tr with
  | [] => []
  | EvLog m :: tr' => m :: logLines tr'
  | _ :: tr' => logLines tr'
  end.

(** The events that happen while the mutex is held: [held] tells whether it
    is held when the trace starts. *)
Fixpoint underLock (held : bool) (tr : list Event) : list Event :=
  match tr with
  | [] => []
  | EvLock :: tr' => underLock true tr'
  | EvUnlock :: tr' => underLock false tr'
  | e :: tr' => if held then e :: underLock held tr' else underLock held tr'
  end.

(** Whether the mutex is held at the end of a trace. *)
Fixpoint heldAfter (held : bool) (tr : list Event) : bool :=
  match tr with
  | [] => held
  | EvLock :: tr' => heldAfter true tr'
  | EvUnlock :: tr' => heldAfter false tr'
  | _ :: tr' => heldAfter held tr'
  end.

(** ** The collaborators of one request *)

(** [Do] is the answer of [http.DefaultClient.Do]: a response whatever its
    status code, or a transport error.  [UpdateOne] is the error, if any, of
    [collection.UpdateOne] for a port and a count. *)
Record Env := mkEnv {
  Do : OutRequest -> Result Response;
  UpdateOne : Z -> Z -> option string
}.

(** ** The state monad of the handler *)

Record World := mkWorld {
  usageData : UsageData;
  w : ResponseWriter;
  trace : list Event
}.

Definition M (A : Type) : Type := World -> A * World.

#[export] Instance M_ret : MRet M := fun A a σ => (a, σ).
#[export] Instance M_bind : MBind M :=
  fun A B f m σ => match m σ with (a, σ') => f a σ' end.

Definition emit (e : Event) : M unit :=
  fun σ => (tt, {| usageData := usageData σ; w := w σ; trace := trace σ ++ [e] |}).

Definition getApps : M (gmap Z App) :=
  fun σ => (Apps (usageData σ), σ).

Definition setApps (m : gmap Z App) : M unit :=
  fun σ => (tt, {| usageData := {| Apps := m |}; w := w σ; trace := trace σ |}).

Definition modifyWriter (f : ResponseWriter -> ResponseWriter) : M unit :=
  fun σ => (tt, {| usageData := usageData σ; w := f (w σ); trace := trace σ |}).

Definition logPrintf (msg : string) : M unit := emit (EvLog msg).

(** ** The proxy: [proxyRequest] and the route handler *)

Section Proxy.

(** [textproto.CanonicalMIMEHeaderKey], applied by [Header.Add], [Set] and
    [Del] to the key they are given. *)
Variable CanonicalMIMEHeaderKey : string -> string.

(** The error, if any, with which [http.NewRequest] rejects a method and a
    URL. *)
Variable NewRequestErr : string -> string -> option string.

(** [h.Add(key, value)] *)
Definition Header_Add (key value : string) (h : Header) : Header :=
  let k := CanonicalMIMEHeaderKey key in
  <[k := (headerValues h k ++ [value])%list]> h.

(** [h.Set(key, value)] *)
Definition Header_Set (key value : string) (h : Header) : Header :=
  <[CanonicalMIMEHeaderKey key := [value]]> h.

(** [h.Del(key)] *)
Definition Header_Del (key : string) (h : Header) : Header :=
  delete (CanonicalMIMEHeaderKey key) h.

(** [w.WriteHeader(code)]: the first call fixes the status. *)
Definition WriteHeader (code : Z) : M unit :=
  modifyWriter (fun rw =>
    match wStatus rw with
    | Some _ => rw
    | None => {| wHeader := wHeader rw; wStatus := Some code; wBody := wBody rw |}
    end).

(** [w.Write(b)]: an implicit [WriteHeader(200)] when no status was
    written, then the bytes. *)
Definition Write (b : string) : M unit :=
  WriteHeader StatusOK ;;
  modifyWriter (fun rw =>
    {| wHeader := wHeader rw; wStatus := wStatus rw; wBody := wBody rw ++ b |}).

Definition setHeader (f : Header -> Header) : M unit :=
  modifyWriter (fun rw =>
    {| wHeader := f (wHeader rw); wStatus := wStatus rw; wBody := wBody rw |}).

Definition newline : string := String (ascii_of_nat 10) EmptyString.

(** [http.Error(w, error, code)] *)
Definition http_Error (error : string) (code : Z) : M unit :=
  setHeader (Header_Del "Content-Length") ;;
  setHeader (Header_Set "Content-Type" "text/plain; charset=utf-8") ;;
  setHeader (Header_Set "X-Content-Type-Options" "nosniff") ;;
  WriteHeader code ;;
  Write (error ++ newline).

(** [http.NewRequest(method, url, body)] *)
Definition NewRequest (method url body : string) : Result OutRequest :=
  match NewRequestErr method url with
  | Some e => Err e
  | None => Ok {| outMethod := method; outURL := url; outHeader := ∅; outBody := body |}
  end.

(** [http.DefaultClient.Do(req)] *)
Definition client_Do (env : Env) (req : OutRequest) : M (Result Response) :=
  emit (EvDo req) ;; mret (Do env req).

(** [for _, value := range values { w.Header().Add(key, value) }] *)
Definition addValues (key : string) (values : list string) (h : Header) : Header :=
  foldl (fun h value => Header_Add key value h) h values.

(** [for key, values := range resp.Header { ... }], the entries taken in
    the order of the list. *)
Definition copyHeader (entries : list (string * list string)) (h : Header) : Header :=
  foldl (fun h kv => addValues kv.1 kv.2 h) h entries.

(** [io.Copy(w, resp.Body)]: an empty body causes no [Write]. *)
Definition io_Copy (body : string) : M unit :=
  if decide (body = "") then mret tt else Write body.

(** [fmt.Sprintf("http://localhost:%d%s", port, r.URL.Path)] *)
Definition proxyURL (port : Z) (r : Request) : string :=
  "http://localhost:" ++ itoa port ++ reqPath r.

(** [req.Header = r.Header] *)
Definition withHeader (h : Header) (req : OutRequest) : OutRequest :=
  {| outMethod := outMethod req; outURL := outURL req;
     outHeader := h; outBody := outBody req |}.

(** [func proxyRequest(port int, w http.ResponseWriter, r *http.Request)] *)
Definition proxyRequest (env : Env) (port : Z) (r : Request) : M unit :=
  match NewRequest (reqMethod r) (proxyURL port r) (reqBody r) with
  | Err _ =>
      http_Error "Error creating request" StatusInternalServerError
  | Ok req0 =>
      let req := withHeader (reqHeader r) req0 in
      res ← client_Do env req;
      match res with
      | Err _ =>
          http_Error "Error forwarding request" StatusInternalServerError
      | Ok resp =>
          setHeader (copyHeader (map_to_list (respHeader resp))) ;;
          WriteHeader (StatusCode resp) ;;
          io_Copy (respBody resp)
      end
  end.

Definition updateErrorLine (port : Z) (e : string) : string :=
  "Error updating MongoDB count for port " ++ itoa port ++ ": " ++ e.

Definition notFoundLine (port : Z) : string :=
  "App for port " ++ itoa port ++ " not found".

(** The handler of [r.HandleFunc("/{appID}", ...)]. *)
Definition handler (env : Env) (r : Request) : M unit :=
  match strconv.Atoi (reqAppID r) with
  | Err _ =>
      http_Error "Invalid application ID" StatusBadRequest
  | Ok port =>
      proxyRequest env port r ;;
      emit EvLock ;;
      apps ← getApps;
      match apps !! port with
      | Some app =>
          let app' := {| Port := Port app; Count := GoInt.incr (Count app) |} in
          setApps (<[port := app']> apps) ;;
          emit (EvUpdateOne port (Count app')) ;;
          match UpdateOne env port (Count app') with
          | Some e => logPrintf (updateErrorLine port e)
          | None => mret tt
          end
      | None => logPrintf (notFoundLine port)
      end ;;
      emit EvUnlock
  end.

(** The outbound request of an inbound request routed to [port], when
    [http.NewRequest] accepts it. *)
Definition outbound (port : Z) (r : Request) : OutRequest :=
  {| outMethod := reqMethod r; outURL := proxyURL port r;
     outHeader := reqHeader r; outBody := reqBody r |}.

(** One request served on a registry [st]: a fresh response writer and an
    empty trace. *)
Definition serveOne (env : Env) (r : Request) (st : UsageData) : World :=
  (handler env r {| usageData := st; w := newResponseWriter; trace := [] |}).2.

(** Requests served one after the other, each with its own collaborators;
    the result is the registry and, per request, what the client got and
    the trace.  The registry is read and written only between [Lock] and
    [Unlock], so the handlers of concurrent requests act on it in the order
    in which they take the mutex: [serve] is given the requests in that
    order. *)
Fixpoint serve (reqs : list (Env * Request)) (st : UsageData)
  : UsageData * list (ResponseWriter * list Event) :=
  match reqs with
  | [] => (st, [])
  | (env, r) :: reqs' =>
      let σ := serveOne env r st in
      let '(st', outs) := serve reqs' (usageData σ) in
      (st', (w σ, trace σ) :: outs)
  end.

End Proxy.

(** ** Start-up: the load loop of [main] *)

(** What [collection.Find] returned: the documents the cursor yields, each
    decoding to an [App] or failing to decode, and the cursor's final
    error. *)
Record Cursor := mkCursor {
  documents : list (Result App);
  cursorErr : option string
}.

(** [for cursor.Next(ctx) { ... }] *)
Fixpoint loadLoop (docs : list (Result App)) : M unit :=
  match docs with
  | [] => mret tt
  | Err e :: docs' =>
      logPrintf ("Error decoding app from MongoDB: " ++ e) ;;
      loadLoop docs'
  | Ok app :: docs' =>
      emit EvLock ;;
      apps ← getApps;
      setApps (<[Port app := app]> apps) ;;
      emit EvUnlock ;;
      loadLoop docs'
  end.

(** The registry with which [main] starts serving, from the answer of
    [collection.Find] on; [Err] is [log.Fatalf].  The steps before it (the
    environment file, the client, the connection) end the process or leave
    the registry empty. *)
Definition startup (found : Result Cursor) : Result UsageData :=
  match found with
  | Err e => Err ("Error retrieving counts from MongoDB: " ++ e)
  | Ok cursor =>
      let σ := (loadLoop (documents cursor)
                  {| usageData := emptyUsageData; w := newResponseWriter; trace := [] |}).2 in
      match cursorErr cursor with
      | Some e => Err ("Cursor error: " ++ e)
      | None => Ok (usageData σ)
      end
  end.

(** The documents that decoded, in cursor order. *)
Fixpoint decoded (docs : list (Result App)) : list App :=
  match docs with
  | [] => []
  | Ok app :: docs' => app :: decoded docs'
  | Err _ :: docs' => decoded docs'
  end.

(** ** Concrete inputs *)

Module Examples.

(** A key canonicalisation that leaves the (already canonical) keys of the
    examples as they are, and a [NewRequest] that accepts them. *)
Definition canonId : string -> string := fun key => key.
Definition acceptAll : string -> string -> option string := fun _ _ => None.

Definition app9000 : App := {| Port := 9000; Count := 5 |}.
Definition st9000 : UsageData := {| Apps := {[ 9000 := app9000 ]} |}.

Definition appMax : App := {| Port := 9000; Count := GoInt.MaxInt |}.
Definition stMax : UsageData := {| Apps := {[ 9000 := appMax ]} |}.

Definition mkGet (path query appID : string) : Request :=
  {| reqMethod := "GET"; reqPath := path; reqRawQuery := query;
     reqHeader := {[ "Accept" := ["*/*"] ]}; reqBody := ""; reqAppID := appID |}.

Definition req9000 : Request := mkGet "/9000" "debug=1" "9000".
Definition req7000 : Request := mkGet "/7000" "" "7000".
Definition reqZero : Request := mkGet "/0" "" "0".
Definition reqAbc : Request := mkGet "/abc" "" "abc".
Definition reqNeg : Request := mkGet "/-5" "" "-5".

Definition page : Response :=
  {| StatusCode := 404;
     respHeader := {[ "Content-Type" := ["text/html"]; "Set-Cookie" := ["a=1"; "b=2"] ]};
     respBody := "<h1>not here</h1>" |}.

(** No backend listens; the store accepts writes. *)
Definition envRefused : Env :=
  {| Do := fun _ => Err "connect: connection refused"; UpdateOne := fun _ _ => None |}.

(** The backend answers [page]; the store accepts writes. *)
Definition envUp : Env :=
  {| Do := fun _ => Ok page; UpdateOne := fun _ _ => None |}.

(** The backend answers [page]; the store rejects writes. *)
Definition envStoreDown : Env :=
  {| Do := fun _ => Ok page; UpdateOne := fun _ _ => Some "server selection timeout" |}.

(** The documents of the start-up example. *)
Definition docs : list (Result App) :=
  [Ok {| Port := 8080; Count := 3 |}; Ok {| Port := 9090; Count := 0 |}].

End Examples.

(** ** Notions used to state further properties *)

(** A record whose port and count are [int]s, as every decoded [App] is. *)
Definition intRecord (a : App) : Prop :=
  GoInt.inRange (Port a) /\ GoInt.inRange (Count a).

(** A registry in which every record sits under its own port and holds
    [int]s. *)
Definition wellFormed (st : UsageData) : Prop :=
  forall p a, Apps st !! p = Some a -> Port a = p /\ intRecord a.

(** Whether the identifier of a request parses to [p]. *)
Definition routedTo (p : Z) (r : Request) : bool :=
  match strconv.Atoi (reqAppID r) with
  | Ok port => bool_decide (port = p)
  | Err _ => false
  end.

(** The number of requests of a sequence whose identifier parses to [p]. *)
Fixpoint hits (p : Z) (reqs : list (Env * Request)) : nat :=
  match reqs with
  | [] => O
  | (_, r) :: reqs' => if routedTo p r then S (hits p reqs') else hits p reqs'
  end.

(** The events of a sequence of served requests, in order. *)
Fixpoint allEvents (outs : list (ResponseWriter * list Event)) : list Event :=
  match outs with
  | [] => []
  | (_, tr) :: outs' => (tr ++ allEvents outs')%list
  end.

(** The counts written to the store for [p], in order. *)
Fixpoint writesFor (p : Z) (tr : list Event) : list Z :=
  match tr with
  | [] => []
  | EvUpdateOne q c :: tr' =>
      if bool_decide (q = p) then c :: writesFor p tr' else writesFor p tr'
  | _ :: tr' => writesFor p tr'
  end.

(** The errors of the documents that did not decode, in cursor order. *)
Fixpoint decodeErrors (docs : list (Result App)) : list string :=
  match docs with
  | [] => []
  | Ok _ :: docs' => decodeErrors docs'
  | Err e :: docs' => e :: decodeErrors docs'
  end.

(** The value of a decimal numeral read digit by digit from [acc]. *)
Fixpoint uintValue (d : Decimal.uint) (acc : Z) : Z :=
  match d with
  | Decimal.Nil => acc
  | Decimal.D0 d' => uintValue d' (acc * 10 + 0)
  | Decimal.D1 d' => uintValue d' (acc * 10 + 1)
  | Decimal.D2 d' => uintValue d' (acc * 10 + 2)
  | Decimal.D3 d' => uintValue d' (acc * 10 + 3)
  | Decimal.D4 d' => uintValue d' (acc * 10 + 4)
  | Decimal.D5 d' => uintValue d' (acc * 10 + 5)
  | Decimal.D6 d' => uintValue d' (acc * 10 + 6)
  | Decimal.D7 d' => uintValue d' (acc * 10 + 7)
  | Decimal.D8 d' => uintValue d' (acc * 10 + 8)
  | Decimal.D9 d' => uintValue d' (acc * 10 + 9)
  end.

(** Whether every byte of a string is a decimal digit. *)
Fixpoint allDigits (s : string) : bool :=
  match s with
  | EmptyString => true
  | String ch s' => (strconv.digitOf ch <=? 9) && allDigits s'
  end.

(** ** More concrete inputs *)

Module MoreExamples.

Import Examples.

(** A [NewRequest] that rejects every URL, as Go's does for a negative
    port. *)
Definition rejectAll : string -> string -> option string :=
  fun _ _ => Some "invalid port".

(** Two requests for 9000, the second to a backend that is down, and one
    for the unregistered 7000. *)
Definition reqs3 : list (Env * Request) :=
  [(envUp, req9000); (envRefused, req9000); (envUp, req7000)].

(** Requests that never name 9000. *)
Definition reqsElsewhere : list (Env * Request) :=
  [(envUp, req7000); (envUp, reqAbc); (envRefused, reqZero)].

(** A cursor whose second document does not decode. *)
Definition docsMixed : list (Result App) :=
  [Ok {| Port := 8080; Count := 3 |}; Err "cannot decode string into an int";
   Ok {| Port := 9090; Count := 0 |}].

(** The entries of a response header, in two orders. *)
Definition entries1 : list (string * list string) :=
  [("Content-Type", ["text/html"]); ("Set-Cookie", ["a=1"; "b=2"])].
Definition entries2 : list (string * list string) :=
  [("Set-Cookie", ["a=1"; "b=2"]); ("Content-Type", ["text/html"])].

End MoreExamples.

(** * Properties *)

(** ** Machine integers, [Atoi] and [Sprintf] on examples *)

Lemma wrap_inRange z : GoInt.inRange z -> GoInt.wrap z = z.
Proof.
  unfold GoInt.inRange, GoInt.wrap, GoInt.MinInt, GoInt.MaxInt, GoInt.intSize.
  intros H. rewrite Z.mod_small; lia.
Qed.

Lemma incr_below_max x :
  GoInt.MinInt <= x < GoInt.MaxInt -> GoInt.incr x = x + 1.
Proof.
  intros H. unfold GoInt.incr. apply wrap_inRange. unfold GoInt.inRange. lia.
Qed.

Lemma incr_at_max : GoInt.incr GoInt.MaxInt = GoInt.MinInt.
Proof. reflexivity. Qed.

Example Atoi_8080 : strconv.Atoi "8080" = Ok 8080.
Proof. reflexivity. Qed.
Example Atoi_abc : strconv.Atoi "abc" = Err strconv.ErrSyntax.
Proof. reflexivity. Qed.
Example Atoi_empty : strconv.Atoi "" = Err strconv.ErrSyntax.
Proof. reflexivity. Qed.
Example Atoi_sign_only : strconv.Atoi "-" = Err strconv.ErrSyntax.
Proof. reflexivity. Qed.
Example Atoi_zero : strconv.Atoi "0" = Ok 0.
Proof. reflexivity. Qed.
Example Atoi_negative : strconv.Atoi "-5" = Ok (-5).
Proof. reflexivity. Qed.
Example Atoi_plus : strconv.Atoi "+17" = Ok 17.
Proof. reflexivity. Qed.
Example Atoi_max : strconv.Atoi "9223372036854775807" = Ok GoInt.MaxInt.
Proof. reflexivity. Qed.
Example Atoi_above_max : strconv.Atoi "9223372036854775808" = Err strconv.ErrRange.
Proof. reflexivity. Qed.
Example Atoi_min : strconv.Atoi "-9223372036854775808" = Ok GoInt.MinInt.
Proof. reflexivity. Qed.
Example itoa_9000 : itoa 9000 = "9000".
Proof. reflexivity. Qed.
Example itoa_0 : itoa 0 = "0".
Proof. reflexivity. Qed.
Example itoa_neg : itoa (-5) = "-5".
Proof. reflexivity. Qed.

Lemma UsageData_eq (a b : UsageData) : Apps a = Apps b -> a = b.
Proof. destruct a, b; cbn; congruence. Qed.

(** ** One request *)

(** Runs the primitives of the monad on the world they are applied to; only
    projections are reduced, so map lookups and strings stay as written. *)
Ltac run_M :=
  unfold http_Error, client_Do, io_Copy, Write, WriteHeader, setHeader, logPrintf,
    modifyWriter, getApps, setApps, emit, mbind, M_bind, mret, M_ret;
  cbn [fst snd usageData w trace wStatus wHeader wBody Apps app Count Port].

Section ProxyFacts.

Variable canon : string -> string.
Variable nre : string -> string -> option string.

Abbreviation serve1 := (serveOne canon nre).
Abbreviation blank :=
  {| usageData := emptyUsageData; w := newResponseWriter; trace := [] |}.

(** The registry after one request. *)
Lemma serveOne_Apps env r st :
  Apps (usageData (serve1 env r st)) =
    match strconv.Atoi (reqAppID r) with
    | Ok port =>
        match Apps st !! port with
        | Some app => <[port := mkApp (Port app) (GoInt.incr (Count app))]> (Apps st)
        | None => Apps st
        end
    | Err _ => Apps st
    end.
Proof.
  unfold serveOne, handler, proxyRequest, NewRequest.
  destruct (strconv.Atoi _) as [port|]; [|reflexivity].
  destruct (nre _ _); run_M.
  - destruct (Apps st !! port); run_M; [destruct (UpdateOne env _ _)|]; reflexivity.
  - destruct (Do env _); run_M.
    + destruct (decide _); run_M; destruct (Apps st !! port); run_M;
        try destruct (UpdateOne env _ _); reflexivity.
    + destruct (Apps st !! port); run_M; [destruct (UpdateOne env _ _)|]; reflexivity.
Qed.

(** The trace of one request: at most one outbound exchange, then the
    locked block. *)
Lemma serveOne_trace env r st :
  trace (serve1 env r st) =
    match strconv.Atoi (reqAppID r) with
    | Ok port =>
        (match nre (reqMethod r) (proxyURL port r) with
         | Some _ => []
         | None => [EvDo (outbound port r)]
         end ++
         EvLock ::
         match Apps st !! port with
         | Some app =>
             EvUpdateOne port (GoInt.incr (Count app)) ::
             match UpdateOne env port (GoInt.incr (Count app)) with
             | Some e => [EvLog (updateErrorLine port e)]
             | None => []
             end
         | None => [EvLog (notFoundLine port)]
         end ++ [EvUnlock])%list
    | Err _ => []
    end.
Proof.
  unfold serveOne, handler, proxyRequest, NewRequest.
  destruct (strconv.Atoi _) as [port|]; [|reflexivity].
  destruct (nre _ _); run_M.
  - destruct (Apps st !! port); run_M; [destruct (UpdateOne env _ _)|]; reflexivity.
  - destruct (Do env _); run_M.
    + destruct (decide _); run_M; destruct (Apps st !! port); run_M;
        try destruct (UpdateOne env _ _); reflexivity.
    + destruct (Apps st !! port); run_M; [destruct (UpdateOne env _ _)|]; reflexivity.
Qed.

(** What the client is sent: it depends on the request and on the outbound
    exchange, not on the registry or the store. *)
Lemma serveOne_w env r st :
  w (serve1 env r st) =
    match strconv.Atoi (reqAppID r) with
    | Ok port =>
        match nre (reqMethod r) (proxyURL port r) with
        | Some _ =>
            w (http_Error canon "Error creating request"
                 StatusInternalServerError blank).2
        | None =>
            match Do env (outbound port r) with
            | Err _ =>
                w (http_Error canon "Error forwarding request"
                     StatusInternalServerError blank).2
            | Ok resp =>
                {| wHeader := copyHeader canon (map_to_list (respHeader resp)) ∅;
                   wStatus := Some (StatusCode resp);
                   wBody := respBody resp |}
            end
        end
    | Err _ =>
        w (http_Error canon "Invalid application ID" StatusBadRequest blank).2
    end.
Proof.
  unfold serveOne, handler, proxyRequest, NewRequest.
  destruct (strconv.Atoi _) as [port|]; [|reflexivity].
  destruct (nre _ _); run_M.
  - destruct (Apps st !! port); run_M; [destruct (UpdateOne env _ _)|]; reflexivity.
  - unfold withHeader, outbound; run_M. cbn [outMethod outURL outBody].
    destruct (Do env _); run_M.
    + destruct (decide _) as [->|]; run_M; destruct (Apps st !! port); run_M;
        try destruct (UpdateOne env _ _); reflexivity.
    + destruct (Apps st !! port); run_M; [destruct (UpdateOne env _ _)|]; reflexivity.
Qed.

Lemma http_Error_status msg code :
  wStatus (w (http_Error canon msg code blank).2) = Some code.
Proof. reflexivity. Qed.

Lemma http_Error_body msg code :
  wBody (w (http_Error canon msg code blank).2) = msg ++ newline.
Proof. reflexivity. Qed.

(** *** Copying the response header *)

Lemma headerValues_Add key value h k :
  headerValues (Header_Add canon key value h) k =
    if decide (canon key = k) then (headerValues h k ++ [value])%list
    else headerValues h k.
Proof.
  unfold headerValues at 1. unfold Header_Add.
  rewrite lookup_insert. case_decide; subst; reflexivity.
Qed.

Lemma headerValues_addValues key values h k :
  headerValues (addValues canon key values h) k =
    if decide (canon key = k) then (headerValues h k ++ values)%list
    else headerValues h k.
Proof.
  unfold addValues. revert h; induction values as [|v vs IH]; intros h; cbn [foldl].
  - case_decide; [by rewrite app_nil_r | done].
  - rewrite IH, headerValues_Add.
    case_decide; [by rewrite <- app_assoc | done].
Qed.




(** *** The claims about one request *)

(** C1 (as the code has it): when the segment parses as an integer, the
    outbound request is built and the exchange fails at the transport
    level, the client is sent status 500 with the forwarding diagnostic,
    after a single attempt.  The usage block then runs as after any other
    forward: with no record for the identifier the registry is unchanged
    and no persistence write is issued; with a record its count is
    incremented and one persistence write carries the new count. *)
Theorem transport_failure_response_and_count env r st port e :
  strconv.Atoi (reqAppID r) = Ok port ->
  nre (reqMethod r) (proxyURL port r) = None ->
  Do env (outbound port r) = Err e ->
  let σ := serve1 env r st in
  wStatus (w σ) = Some StatusInternalServerError /\
  wBody (w σ) = "Error forwarding request" ++ newline /\
  forwards (trace σ) = [outbound port r] /\
  (Apps st !! port = None ->
     usageData σ = st /\ persistWrites (trace σ) = []) /\
  (forall app, Apps st !! port = Some app ->
     Apps (usageData σ)
       = <[port := mkApp (Port app) (GoInt.incr (Count app))]> (Apps st) /\
     persistWrites (trace σ) = [(port, GoInt.incr (Count app))]).
Proof.
  intros HA Hn Hd σ. subst σ.
  rewrite serveOne_w, serveOne_trace, HA, Hn, Hd.
  split; [reflexivity|]. split; [reflexivity|].
  split; [|split].
  - destruct (Apps st !! port); [destruct (UpdateOne env _ _)|]; reflexivity.
  - intros Hnone. split.
    + apply UsageData_eq. by rewrite serveOne_Apps, HA, Hnone.
    + by rewrite Hnone.
  - intros app Hsome. rewrite serveOne_Apps, HA, Hsome. split; [reflexivity|].
    destruct (UpdateOne env _ _); reflexivity.
Qed.

(** C2 (as the code has it): when [strconv.Atoi] rejects the segment (it
    is empty, has a byte that is not a decimal digit after an optional
    sign, or is out of the range of [int]), the client is sent status 400
    with the diagnostic, and nothing else happens: no outbound exchange, no
    registry change, no persistence write, no lock taken. *)
Theorem unparsable_identifier_rejected env r st e :
  strconv.Atoi (reqAppID r) = Err e ->
  let σ := serve1 env r st in
  wStatus (w σ) = Some StatusBadRequest /\
  wBody (w σ) = "Invalid application ID" ++ newline /\
  trace σ = [] /\
  forwards (trace σ) = [] /\
  persistWrites (trace σ) = [] /\
  usageData σ = st.
Proof.
  intros HA σ. subst σ.
  rewrite serveOne_w, serveOne_trace, HA.
  repeat split; try reflexivity.
  apply UsageData_eq. by rewrite serveOne_Apps, HA.
Qed.






(** C10: the handler never reads the query string: with any other query
    string the whole run is the same.  The only request it hands to the
    HTTP client has the inbound method, header and body, and the URL made
    of the fixed host, the port and the inbound path. *)
Theorem query_string_dropped env r st query :
  let r' := {| reqMethod := reqMethod r; reqPath := reqPath r;
               reqRawQuery := query; reqHeader := reqHeader r;
               reqBody := reqBody r; reqAppID := reqAppID r |} in
  serve1 env r' st = serve1 env r st /\
  (forall port, strconv.Atoi (reqAppID r) = Ok port ->
     (forall req, req ∈ forwards (trace (serve1 env r st)) -> req = outbound port r) /\
     (nre (reqMethod r) (proxyURL port r) = None ->
        forwards (trace (serve1 env r st)) = [outbound port r]) /\
     outbound port r =
       {| outMethod := reqMethod r;
          outURL := "http://localhost:" ++ itoa port ++ reqPath r;
          outHeader := reqHeader r;
          outBody := reqBody r |}).
Proof.
  intros r'. split; [reflexivity|].
  intros port HA. rewrite serveOne_trace, HA. split; [|split].
  - intros req.
    destruct (nre _ _); destruct (Apps st !! port);
      try destruct (UpdateOne env _ _); cbn;
      first [by intros ?%elem_of_nil | by intros ?%list_elem_of_singleton].
  - intros ->.
    destruct (Apps st !! port); [destruct (UpdateOne env _ _)|]; reflexivity.
  - reflexivity.
Qed.

(** *** Sequences of requests *)

Lemma serve_cons_fst env r reqs st :
  (serve canon nre ((env, r) :: reqs) st).1
  = (serve canon nre reqs (usageData (serve1 env r st))).1.
Proof. cbn. by destruct (serve _ _ _ _). Qed.

(** One request keeps every record, with its port, and leaves its count
    as it was or increments it. *)
Lemma serveOne_lookup env r st p :
  match Apps st !! p with
  | Some a =>
      exists a', Apps (usageData (serve1 env r st)) !! p = Some a' /\
                 Port a' = Port a /\
                 (Count a' = Count a \/ Count a' = GoInt.incr (Count a))
  | None => Apps (usageData (serve1 env r st)) !! p = None
  end.
Proof.
  rewrite serveOne_Apps.
  destruct (strconv.Atoi _) as [port|]; [|destruct (Apps st !! p); eauto].
  destruct (Apps st !! port) as [app|] eqn:Hport; [|destruct (Apps st !! p); eauto].
  destruct (decide (port = p)) as [->|Hne].
  - rewrite Hport, lookup_insert_eq. eauto.
  - rewrite lookup_insert_ne by done. destruct (Apps st !! p); eauto.
Qed.

(** C9 (as the code has it): no sequence of handled requests removes a
    record or adds one, and a record's count never decreases as long as it
    stays below the largest [int]: after [n] requests a count [c] with
    [c + n <= MaxInt] lies between [c] and [c + n]. *)
Theorem counts_monotone_below_MaxInt reqs st :
  let st' := (serve canon nre reqs st).1 in
  (forall p, is_Some (Apps st' !! p) <-> is_Some (Apps st !! p)) /\
  (forall p a, Apps st !! p = Some a ->
     GoInt.MinInt <= Count a ->
     Count a + Z.of_nat (length reqs) <= GoInt.MaxInt ->
     exists a', Apps st' !! p = Some a' /\
                Port a' = Port a /\
                Count a <= Count a' <= Count a + Z.of_nat (length reqs)).
Proof.
  cbn zeta. revert st. induction reqs as [|[env r] reqs IH]; intros st.
  - cbn. split; [done|]. intros p a Hp _ _. exists a. split; [done|]. lia.
  - rewrite serve_cons_fst.
    destruct (IH (usageData (serve1 env r st))) as [IHdom IHcount]. split.
    + intros p. rewrite IHdom.
      pose proof (serveOne_lookup env r st p) as Hstep.
      destruct (Apps st !! p) as [a|].
      * destruct Hstep as (a' & -> & _). split; eauto.
      * rewrite Hstep. done.
    + intros p a Hp Hmin Hmax.
      pose proof (serveOne_lookup env r st p) as Hstep. rewrite Hp in Hstep.
      destruct Hstep as (a1 & Hp1 & Hport1 & Hcount1).
      rewrite length_cons, Nat2Z.inj_succ in Hmax |- *.
      assert (Count a <= Count a1 <= Count a + 1) as Hbound.
      { destruct Hcount1 as [->| ->]; [lia|].
        rewrite incr_below_max by lia. lia. }
      destruct (IHcount p a1 Hp1) as (a' & Hp' & Hport' & Hcount'); [lia|lia|].
      exists a'. split; [done|]. split; [congruence|lia].
Qed.

End ProxyFacts.

(** ** Start-up *)

Lemma loadLoop_Apps docs σ :
  Apps (usageData (loadLoop docs σ).2)
  = foldl (fun m a => <[Port a := a]> m) (Apps (usageData σ)) (decoded docs).
Proof.
  revert σ. induction docs as [|[a|e] docs IH]; intros σ; [reflexivity| |].
  - cbn [loadLoop decoded foldl]. run_M. by rewrite IH.
  - cbn [loadLoop decoded]. run_M. by rewrite IH.
Qed.

Abbreviation put := (fun (m : gmap Z App) (a : App) => <[Port a := a]> m).

Section LoadFacts.

Implicit Types (l : list App) (m : gmap Z App) (p : Z).

Lemma load_other l m p :
  p ∉ Port <$> l -> foldl put m l !! p = m !! p.
Proof.
  revert m. induction l as [|a l IH]; intros m Hp; [done|].
  rewrite fmap_cons, not_elem_of_cons in Hp. destruct Hp as [Hne Hp].
  cbn. rewrite IH by done. by rewrite lookup_insert_ne.
Qed.

Lemma load_last before a after m :
  Port a ∉ Port <$> after ->
  foldl put m (before ++ a :: after) !! Port a = Some a.
Proof.
  intros Hp. rewrite foldl_app. cbn.
  rewrite load_other by done. apply lookup_insert_eq.
Qed.

Lemma load_Some l m p a :
  foldl put m l !! p = Some a ->
  (Port a = p /\ a ∈ l) \/ m !! p = Some a.
Proof.
  revert m. induction l as [|b l IH]; intros m Hp; [by right|].
  cbn in Hp. apply IH in Hp as [[Hport Hin]|Hp].
  - left. split; [done|by right].
  - rewrite lookup_insert in Hp. case_decide as Hk.
    + injection Hp as ->. left. split; [done|by left].
    + by right.
Qed.

Lemma load_in l m p :
  p ∈ Port <$> l -> is_Some (foldl put m l !! p).
Proof.
  revert m. induction l as [|a l IH]; intros m Hp; [by apply elem_of_nil in Hp|].
  cbn. destruct (decide (p ∈ Port <$> l)) as [Hin|Hnotin]; [by apply IH|].
  rewrite load_other by done.
  rewrite fmap_cons in Hp. apply elem_of_cons in Hp as [->|Hin]; [|done].
  rewrite lookup_insert_eq. eauto.
Qed.

End LoadFacts.

(** C8: when the cursor ends without error, start-up succeeds, and the
    registry holds a record for exactly the identifiers of the documents that
    decoded; the record found under an identifier is one of the loaded
    records and carries that identifier; it is the one loaded last for it, so
    that when the identifiers are distinct every loaded record is found with
    its count; an identifier that was not loaded is not found. *)
Theorem startup_registry docs :
  exists st,
    startup (Ok {| documents := docs; cursorErr := None |}) = Ok st /\
    (forall p, is_Some (Apps st !! p) <-> p ∈ Port <$> decoded docs) /\
    (forall p, p ∉ Port <$> decoded docs -> Apps st !! p = None) /\
    (forall p a, Apps st !! p = Some a -> Port a = p /\ a ∈ decoded docs) /\
    (forall before a after,
       decoded docs = (before ++ a :: after)%list ->
       Port a ∉ Port <$> after ->
       Apps st !! Port a = Some a) /\
    (NoDup (Port <$> decoded docs) ->
     forall a, a ∈ decoded docs -> Apps st !! Port a = Some a).
Proof.
  eexists. split; [reflexivity|]. cbn [documents].
  rewrite loadLoop_Apps. cbn [usageData Apps emptyUsageData].
  assert (Hsome : forall p a,
             foldl put ∅ (decoded docs) !! p = Some a ->
             Port a = p /\ a ∈ decoded docs).
  { intros p a [H|H]%load_Some; [done|]. by rewrite lookup_empty in H. }
  assert (Hlast : forall before a after,
             decoded docs = (before ++ a :: after)%list ->
             Port a ∉ Port <$> after ->
             foldl put ∅ (decoded docs) !! Port a = Some a).
  { intros before a after -> Hp. by apply load_last. }
  split; [|split; [|split; [|split]]]; try done.
  - intros p. split; [|apply load_in].
    intros [a Ha]. apply Hsome in Ha as [<- Hin].
    by apply list_elem_of_fmap_2.
  - intros p Hp. rewrite load_other by done. apply lookup_empty.
  - intros Hnd a Hin.
    apply list_elem_of_split in Hin as (before & after & Heq).
    apply (Hlast before a after Heq).
    rewrite Heq, fmap_app, fmap_cons in Hnd.
    apply NoDup_app in Hnd as (_ & _ & Hnd).
    by apply NoDup_cons in Hnd as [Hnotin _].
Qed.

(** ** The claims on concrete inputs *)

Section Concrete.

Import Examples.

Abbreviation run := (serveOne canonId acceptAll).

(** C1, as stated, fails: no backend listens on 9000, the record
    [{9000, 5}] exists; the client is sent 500, and yet the count becomes 6
    and a persistence write with count 6 is issued. *)
Lemma transport_failure_mutates_registry :
  strconv.Atoi (reqAppID req9000) = Ok 9000 /\
  Do envRefused (outbound 9000 req9000) = Err "connect: connection refused" /\
  let σ := run envRefused req9000 st9000 in
  wStatus (w σ) = Some 500 /\
  Apps (usageData σ) !! 9000 = Some {| Port := 9000; Count := 6 |} /\
  persistWrites (trace σ) = [(9000, 6)] /\
  ~ (Apps (usageData σ) !! 9000 = Apps st9000 !! 9000 /\
     persistWrites (trace σ) = []).
Proof.
  repeat (split; [reflexivity|]).
  intros [_ H]. vm_compute in H. discriminate H.
Qed.

Lemma transport_failure_response_and_count_witness :
  strconv.Atoi (reqAppID req9000) = Ok 9000 /\
  acceptAll (reqMethod req9000) (proxyURL 9000 req9000) = None /\
  Do envRefused (outbound 9000 req9000) = Err "connect: connection refused" /\
  let σ := run envRefused req9000 st9000 in
  wStatus (w σ) = Some 500 /\
  forwards (trace σ) = [outbound 9000 req9000] /\
  persistWrites (trace σ) = [(9000, 6)].
Proof.
  do 3 (split; [reflexivity|]).
  destruct (transport_failure_response_and_count canonId acceptAll
              envRefused req9000 st9000 9000 _ eq_refl eq_refl eq_refl)
    as (Hstatus & _ & Hforwards & _ & Hsome).
  destruct (Hsome app9000 eq_refl) as [_ Hwrites].
  exact (conj Hstatus (conj Hforwards Hwrites)).
Defined.

(** C2, as stated, fails: the segment ["0"] is not a positive integer, and
    the request is not answered 400: it is forwarded to port 0 and, the
    exchange failing, answered 500. *)
Lemma zero_identifier_forwarded :
  ~ (exists n, strconv.Atoi (reqAppID reqZero) = Ok n /\ 0 < n) /\
  let σ := run envRefused reqZero st9000 in
  wStatus (w σ) = Some 500 /\
  forwards (trace σ) = [outbound 0 reqZero] /\
  ~ (wStatus (w σ) = Some StatusBadRequest /\ forwards (trace σ) = []).
Proof.
  split.
  - intros (n & Hn & Hpos). vm_compute in Hn. injection Hn as <-. lia.
  - repeat (split; [reflexivity|]).
    intros [H _]. vm_compute in H. discriminate H.
Qed.

(** A negative segment parses too: whether [http.NewRequest] accepts the
    URL with port -5 or not, the answer is 500, not 400. *)
Example negative_identifier_not_rejected canon nre :
  strconv.Atoi (reqAppID reqNeg) = Ok (-5) /\
  wStatus (w (serveOne canon nre envRefused reqNeg st9000)) = Some 500.
Proof.
  split; [reflexivity|].
  rewrite serveOne_w.
  change (strconv.Atoi (reqAppID reqNeg)) with (@Ok Z (-5)).
  cbv beta iota. destruct (nre _ _); reflexivity.
Qed.

Lemma unparsable_identifier_rejected_witness :
  strconv.Atoi (reqAppID reqAbc) = Err strconv.ErrSyntax /\
  let σ := run envUp reqAbc st9000 in
  wStatus (w σ) = Some 400 /\ trace σ = [] /\ usageData σ = st9000.
Proof.
  split; [reflexivity|].
  destruct (unparsable_identifier_rejected canonId acceptAll
              envUp reqAbc st9000 strconv.ErrSyntax eq_refl)
    as (Hstatus & _ & Htrace & _ & _ & Hst).
  exact (conj Hstatus (conj Htrace Hst)).
Defined.







Lemma startup_registry_witness :
  exists st,
    startup (Ok {| documents := docs; cursorErr := None |}) = Ok st /\
    Apps st !! 8080 = Some {| Port := 8080; Count := 3 |} /\
    Apps st !! 9090 = Some {| Port := 9090; Count := 0 |} /\
    Apps st !! 7000 = None.
Proof.
  destruct (startup_registry docs) as (st & Hst & _ & Hmiss & _ & _ & Hall).
  exists st. split; [exact Hst|].
  assert (Hnd : NoDup (Port <$> decoded docs)).
  { cbn. compute_done. }
  split; [|split].
  - apply (Hall Hnd {| Port := 8080; Count := 3 |}). cbn. apply list_elem_of_here.
  - apply (Hall Hnd {| Port := 9090; Count := 0 |}). cbn.
    apply list_elem_of_further, list_elem_of_here.
  - apply Hmiss. cbn. compute_done.
Defined.

(** C9, as stated, fails: the count of the record for 9000 is the largest
    [int]; after one request it is the smallest. *)
Lemma count_decreases_at_MaxInt :
  let st' := (serve canonId acceptAll [(envUp, req9000)] stMax).1 in
  Apps stMax !! 9000 = Some appMax /\
  Apps st' !! 9000 = Some {| Port := 9000; Count := GoInt.MinInt |} /\
  ~ (forall a a', Apps stMax !! 9000 = Some a -> Apps st' !! 9000 = Some a' ->
                  Count a <= Count a').
Proof.
  repeat (split; [reflexivity|]).
  intros H. specialize (H appMax _ eq_refl eq_refl). vm_compute in H. apply H. reflexivity.
Qed.

Lemma counts_monotone_below_MaxInt_witness :
  let reqs := [(envUp, req9000); (envRefused, req9000); (envUp, req7000)] in
  Apps st9000 !! 9000 = Some app9000 /\
  GoInt.MinInt <= Count app9000 /\
  Count app9000 + Z.of_nat (length reqs) <= GoInt.MaxInt /\
  exists a', Apps (serve canonId acceptAll reqs st9000).1 !! 9000 = Some a' /\
             Port a' = 9000 /\ 5 <= Count a' <= 8.
Proof.
  intros reqs.
  assert (Hmin : GoInt.MinInt <= Count app9000) by (vm_compute; discriminate).
  assert (Hmax : Count app9000 + Z.of_nat (length reqs) <= GoInt.MaxInt)
    by (vm_compute; discriminate).
  split; [reflexivity|]. split; [exact Hmin|]. split; [exact Hmax|].
  destruct (counts_monotone_below_MaxInt canonId acceptAll reqs st9000) as [_ Hcount].
  exact (Hcount 9000 app9000 eq_refl Hmin Hmax).
Defined.

Lemma query_string_dropped_witness :
  strconv.Atoi (reqAppID req9000) = Ok 9000 /\
  acceptAll (reqMethod req9000) (proxyURL 9000 req9000) = None /\
  reqRawQuery req9000 = "debug=1" /\
  forwards (trace (run envUp req9000 st9000)) = [outbound 9000 req9000] /\
  outURL (outbound 9000 req9000) = "http://localhost:9000/9000" /\
  run envUp (mkGet "/9000" "" "9000") st9000 = run envUp req9000 st9000.
Proof.
  do 3 (split; [reflexivity|]).
  destruct (query_string_dropped canonId acceptAll envUp req9000 st9000 "")
    as [Hsame Hout].
  destruct (Hout 9000 eq_refl) as (_ & Hforwards & Hshape).
  split; [exact (Hforwards eq_refl)|].
  split; [rewrite Hshape; reflexivity | exact Hsame].
Defined.

End Concrete.

(** * Further properties of the code *)

Section MoreProxyFacts.

Variable canon : string -> string.
Variable nre : string -> string -> option string.

(** ** [proxyRequest] alone *)

(** X1: [proxyRequest] leaves the registry as it is, takes no lock and writes
    nothing to the store or the log: on any world, the only event it adds is
    the outbound exchange, and only when [http.NewRequest] accepted the
    request. *)
Theorem proxyRequest_frame env port r σ :
  let σ' := (proxyRequest canon nre env port r σ).2 in
  usageData σ' = usageData σ /\
  trace σ' = (trace σ ++
              match nre (reqMethod r) (proxyURL port r) with
              | Some _ => []
              | None => [EvDo (outbound port r)]
              end)%list.
Proof.
  cbn zeta. unfold proxyRequest, NewRequest.
  destruct (nre _ _); run_M.
  - by rewrite app_nil_r.
  - destruct (Do env _); run_M; [|done].
    destruct (decide _); run_M; done.
Qed.

(** X2: the response is complete when [proxyRequest] returns: what the client
    is sent by the handler is what [proxyRequest] alone sends on a fresh
    writer; the usage block adds nothing to it. *)
Theorem response_fixed_before_counting env r st port :
  strconv.Atoi (reqAppID r) = Ok port ->
  w (serveOne canon nre env r st)
  = w (proxyRequest canon nre env port r
         {| usageData := st; w := newResponseWriter; trace := [] |}).2.
Proof.
  intros HA. unfold serveOne, handler. rewrite HA.
  unfold proxyRequest, NewRequest.
  destruct (nre _ _); run_M.
  - destruct (Apps st !! port); run_M; [destruct (UpdateOne env _ _)|]; reflexivity.
  - destruct (Do env _); run_M.
    + destruct (decide _); run_M; destruct (Apps st !! port); run_M;
        try destruct (UpdateOne env _ _); reflexivity.
    + destruct (Apps st !! port); run_M; [destruct (UpdateOne env _ _)|]; reflexivity.
Qed.

(** ** The other failure of [proxyRequest] *)

(** X3: when [http.NewRequest] rejects the outbound request, the client is sent
    status 500 with the construction diagnostic and the HTTP client is never
    called; the usage block runs all the same: an existing record is
    incremented and written to the store, a missing one is logged. *)
Theorem construction_failure_still_counted env r st port e :
  strconv.Atoi (reqAppID r) = Ok port ->
  nre (reqMethod r) (proxyURL port r) = Some e ->
  let σ := serveOne canon nre env r st in
  wStatus (w σ) = Some StatusInternalServerError /\
  wBody (w σ) = "Error creating request" ++ newline /\
  forwards (trace σ) = [] /\
  (forall app, Apps st !! port = Some app ->
     Apps (usageData σ)
       = <[port := mkApp (Port app) (GoInt.incr (Count app))]> (Apps st) /\
     persistWrites (trace σ) = [(port, GoInt.incr (Count app))]) /\
  (Apps st !! port = None ->
     usageData σ = st /\ persistWrites (trace σ) = [] /\
     logLines (trace σ) = [notFoundLine port]).
Proof.
  intros HA Hn σ. subst σ.
  rewrite serveOne_w, serveOne_trace, HA, Hn.
  split; [reflexivity|]. split; [reflexivity|]. split; [|split].
  - destruct (Apps st !! port); [destruct (UpdateOne env _ _)|]; reflexivity.
  - intros app Hsome. rewrite serveOne_Apps, HA, Hsome. split; [reflexivity|].
    destruct (UpdateOne env _ _); reflexivity.
  - intros Hnone. rewrite Hnone. split; [|done].
    apply UsageData_eq. by rewrite serveOne_Apps, HA, Hnone.
Qed.

(** ** Every request is answered *)


(** ** The store sees what the registry holds *)

Lemma serveOne_persistWrites env r st :
  persistWrites (trace (serveOne canon nre env r st)) =
    match strconv.Atoi (reqAppID r) with
    | Ok port =>
        match Apps st !! port with
        | Some app => [(port, GoInt.incr (Count app))]
        | None => []
        end
    | Err _ => []
    end.
Proof.
  rewrite serveOne_trace.
  destruct (strconv.Atoi _) as [port|]; [|done].
  destruct (nre _ _); destruct (Apps st !! port);
    try destruct (UpdateOne env _ _); reflexivity.
Qed.

(** X5: one request issues at most one persistence write; it is for the port the
    identifier parses to, and the count it carries is the count the registry
    holds for that port when the handler returns. *)
Theorem persistence_write_matches_memory env r st :
  let σ := serveOne canon nre env r st in
  (length (persistWrites (trace σ)) <= 1)%nat /\
  forall p c, (p, c) ∈ persistWrites (trace σ) ->
    strconv.Atoi (reqAppID r) = Ok p /\
    exists a, Apps (usageData σ) !! p = Some a /\ Count a = c.
Proof.
  cbn zeta. rewrite serveOne_persistWrites, serveOne_Apps.
  destruct (strconv.Atoi _) as [port|]; [|split; [cbn; lia|by intros ?? ?%elem_of_nil]].
  destruct (Apps st !! port) as [app|]; [|split; [cbn; lia|by intros ?? ?%elem_of_nil]].
  split; [cbn; lia|].
  intros p c Hin%list_elem_of_singleton. injection Hin as -> ->.
  split; [done|]. rewrite lookup_insert_eq. eauto.
Qed.

End MoreProxyFacts.

(** ** Sequences of requests *)

Lemma wrap_range z : GoInt.inRange (GoInt.wrap z).
Proof.
  unfold GoInt.inRange, GoInt.wrap, GoInt.MinInt, GoInt.MaxInt, GoInt.intSize.
  pose proof (Z.mod_pos_bound (z - - 2 ^ (64 - 1)) (2 ^ 64) ltac:(lia)). lia.
Qed.

Lemma writesFor_app p tr1 tr2 :
  writesFor p (tr1 ++ tr2) = (writesFor p tr1 ++ writesFor p tr2)%list.
Proof.
  induction tr1 as [|[] tr1 IH]; cbn; try done.
  case_bool_decide; cbn; by rewrite IH.
Qed.

Section SequenceFacts.

Variable canon : string -> string.
Variable nre : string -> string -> option string.

Abbreviation serveAll := (serve canon nre).
Abbreviation serveReq := (serveOne canon nre).

Lemma allEvents_serve_cons env r reqs st :
  allEvents (serveAll ((env, r) :: reqs) st).2
  = (trace (serveReq env r st)
     ++ allEvents (serveAll reqs (usageData (serveReq env r st))).2)%list.
Proof. cbn. by destruct (serve _ _ _ _). Qed.

(** The record of [p] after one request. *)
Lemma serveOne_lookup_routed env r st p :
  Apps (usageData (serveReq env r st)) !! p =
    if routedTo p r
    then (fun a => mkApp (Port a) (GoInt.incr (Count a))) <$> Apps st !! p
    else Apps st !! p.
Proof.
  rewrite serveOne_Apps. unfold routedTo.
  destruct (strconv.Atoi _) as [port|]; [|done].
  case_bool_decide as Hp.
  - subst port. destruct (Apps st !! p) as [a|] eqn:Ha; cbn.
    + by rewrite lookup_insert_eq.
    + done.
  - destruct (Apps st !! port); [by rewrite lookup_insert_ne|done].
Qed.

(** The counts written for [p] by one request. *)
Lemma serveOne_writesFor env r st p :
  writesFor p (trace (serveReq env r st)) =
    if routedTo p r
    then match Apps st !! p with
         | Some a => [GoInt.incr (Count a)]
         | None => []
         end
    else [].
Proof.
  rewrite serveOne_trace. unfold routedTo.
  destruct (strconv.Atoi _) as [port|]; [|done].
  rewrite writesFor_app.
  assert (Hpre : writesFor p
                   match nre (reqMethod r) (proxyURL port r) with
                   | Some _ => []
                   | None => [EvDo (outbound port r)]
                   end = []) by (by destruct (nre _ _)).
  rewrite Hpre. cbn [app writesFor].
  case_bool_decide as Hp.
  - subst port. destruct (Apps st !! p) as [a|]; cbn [app writesFor]; [|done].
    rewrite bool_decide_true by done.
    by destruct (UpdateOne env _ _).
  - destruct (Apps st !! port) as [a|]; cbn [app writesFor]; [|done].
    rewrite bool_decide_false by done.
    by destruct (UpdateOne env _ _).
Qed.


(** X7: a record changes only through requests for its own port: when no
    request of the sequence has an identifier that parses to [p], the
    registry's entry for [p] is as before and the store is sent nothing for
    [p]. *)
Theorem serve_frame reqs st p :
  hits p reqs = O ->
  Apps (serveAll reqs st).1 !! p = Apps st !! p /\
  writesFor p (allEvents (serveAll reqs st).2) = [].
Proof.
  revert st. induction reqs as [|[env r] reqs IH]; intros st Hhits; [done|].
  rewrite serve_cons_fst, allEvents_serve_cons, writesFor_app, serveOne_writesFor.
  pose proof (serveOne_lookup_routed env r st p) as Hstep.
  cbn [hits] in Hhits. destruct (routedTo p r); [done|].
  destruct (IH (usageData (serveReq env r st)) Hhits) as [IHa IHw].
  by rewrite IHa, IHw, Hstep.
Qed.

(** X8: an identifier with no record never gets one and is never written to the
    store, however many requests ask for it. *)
Theorem serve_never_registers reqs st p :
  Apps st !! p = None ->
  Apps (serveAll reqs st).1 !! p = None /\
  writesFor p (allEvents (serveAll reqs st).2) = [].
Proof.
  revert st. induction reqs as [|[env r] reqs IH]; intros st Hnone; [done|].
  rewrite serve_cons_fst, allEvents_serve_cons, writesFor_app, serveOne_writesFor.
  pose proof (serveOne_lookup_routed env r st p) as Hstep.
  rewrite Hnone in Hstep |- *.
  assert (Hnone' : Apps (usageData (serveReq env r st)) !! p = None)
    by (by destruct (routedTo p r)).
  destruct (IH _ Hnone') as [IHa IHw].
  rewrite IHa, IHw. by destruct (routedTo p r).
Qed.

Lemma serve_unwritten_unchanged reqs st p :
  writesFor p (allEvents (serveAll reqs st).2) = [] ->
  Apps (serveAll reqs st).1 !! p = Apps st !! p.
Proof.
  revert st. induction reqs as [|[env r] reqs IH]; intros st Hw; [done|].
  rewrite allEvents_serve_cons, writesFor_app, serveOne_writesFor in Hw.
  apply app_eq_nil in Hw as [Hw1 Hw2].
  rewrite serve_cons_fst, (IH _ Hw2), serveOne_lookup_routed.
  destruct (routedTo p r); [|done].
  by destruct (Apps st !! p).
Qed.

(** X9: the store is never sent a value the registry does not hold: the
    count last sent to the store for [p] during a sequence of requests is
    the count the registry holds for [p] at the end, also when the counter
    wrapped on the way. *)
Theorem last_write_is_memory reqs st p c :
  last (writesFor p (allEvents (serveAll reqs st).2)) = Some c ->
  exists a, Apps (serveAll reqs st).1 !! p = Some a /\ Count a = c.
Proof.
  revert st. induction reqs as [|[env r] reqs IH]; intros st Hlast; [done|].
  rewrite allEvents_serve_cons, writesFor_app, last_app in Hlast.
  rewrite serve_cons_fst.
  destruct (last (writesFor p (allEvents (serveAll reqs _).2))) as [c'|] eqn:Hrest.
  - injection Hlast as ->. by apply IH.
  - apply last_None in Hrest.
    rewrite (serve_unwritten_unchanged _ _ _ Hrest), serveOne_lookup_routed.
    rewrite serveOne_writesFor in Hlast.
    destruct (routedTo p r); [|done].
    destruct (Apps st !! p) as [a|]; [|done].
    injection Hlast as <-. cbn. eauto.
Qed.

(** ** The registry stays well formed *)

Lemma serveOne_wellFormed env r st :
  wellFormed st -> wellFormed (usageData (serveReq env r st)).
Proof.
  intros Hwf p a. rewrite serveOne_lookup_routed.
  destruct (routedTo p r); [|apply Hwf].
  destruct (Apps st !! p) as [a0|] eqn:Ha0; [|done].
  intros [= <-]. destruct (Hwf p a0 Ha0) as (Hport & Hp & _).
  split; [done|]. split; [done|]. apply wrap_range.
Qed.

(** X10: handling requests keeps the registry well formed: every record stays
    under its own port, and ports and counts stay [int]s. *)
Theorem serve_wellFormed reqs st :
  wellFormed st -> wellFormed (serveAll reqs st).1.
Proof.
  revert st. induction reqs as [|[env r] reqs IH]; intros st Hwf; [done|].
  rewrite serve_cons_fst. by apply IH, serveOne_wellFormed.
Qed.

End SequenceFacts.

(** X11: start-up builds a well-formed registry from whatever documents decode
    into [int]s, undecodable ones included in the cursor or not. *)
Theorem startup_wellFormed docs :
  Forall intRecord (decoded docs) ->
  exists st,
    startup (Ok {| documents := docs; cursorErr := None |}) = Ok st /\
    wellFormed st.
Proof.
  intros Hall. eexists. split; [reflexivity|].
  intros p a. cbn [documents usageData]. rewrite loadLoop_Apps.
  cbn [usageData Apps emptyUsageData].
  intros [[Hport Hin]|Hempty]%load_Some.
  - split; [done|]. by eapply (proj1 (Forall_forall _ _) Hall).
  - by rewrite lookup_empty in Hempty.
Qed.

(** ** The order of [range resp.Header] *)

Section HeaderOrder.

Variable canon : string -> string.

Lemma lookup_addValues key values (h : Header) k :
  addValues canon key values h !! k =
    if decide (canon key = k)
    then match values with
         | [] => h !! k
         | _ => Some (headerValues h k ++ values)%list
         end
    else h !! k.
Proof.
  unfold addValues. revert h.
  induction values as [|v vs IH]; intros h; cbn [foldl].
  - by case_decide.
  - rewrite IH. unfold Header_Add at 1 3.
    rewrite lookup_insert. case_decide as Hk; [|done].
    rewrite headerValues_Add, decide_True by done. subst k.
    destruct vs; [done|]. by rewrite <- app_assoc.
Qed.

Lemma addValues_comm key1 vs1 key2 vs2 (h : Header) :
  canon key1 <> canon key2 ->
  addValues canon key1 vs1 (addValues canon key2 vs2 h)
  = addValues canon key2 vs2 (addValues canon key1 vs1 h).
Proof.
  intros Hne. apply map_eq. intros k.
  rewrite !lookup_addValues, !headerValues_addValues.
  repeat case_decide; try done; congruence.
Qed.

(** X12: Go leaves the order in which [range] visits a map unspecified.  When
    no two keys of the response share a canonical form, the header sent to
    the client is the same whatever that order. *)
Theorem copyHeader_order_irrelevant (es es' : list (string * list string)) h :
  es ≡ₚ es' ->
  NoDup (canon <$> es.*1) ->
  copyHeader canon es h = copyHeader canon es' h.
Proof.
  intros Hperm. revert h.
  induction Hperm as [|[k vs] es es' Hperm IH|[k1 vs1] [k2 vs2] es|es1 es2 es3 H12 IH12 H23 IH23];
    intros h Hnd.
  - done.
  - cbn in Hnd. apply NoDup_cons in Hnd as [_ Hnd].
    unfold copyHeader. cbn [foldl]. by apply IH.
  - cbn in Hnd. apply NoDup_cons in Hnd as [Hnotin _].
    unfold copyHeader. cbn [foldl fst snd]. f_equal.
    apply addValues_comm. intros Heq. apply Hnotin. rewrite Heq. left.
  - rewrite IH12 by done. apply IH23.
    by rewrite <- H12.
Qed.

End HeaderOrder.

(** ** What [strconv.Atoi] accepts *)

Lemma digitOf_range ch : 0 <= strconv.digitOf ch < 256.
Proof. unfold strconv.digitOf. apply Z.mod_pos_bound. lia. Qed.

Lemma fastDigits_bound s acc n :
  strconv.fastDigits s acc = Ok n ->
  0 <= acc ->
  allDigits s = true /\
  acc * 10 ^ Z.of_nat (String.length s) <= n
    < (acc + 1) * 10 ^ Z.of_nat (String.length s).
Proof.
  revert acc. induction s as [|ch s IH]; intros acc Hn Hacc.
  - injection Hn as <-. cbn. split; [done|lia].
  - cbn [strconv.fastDigits] in Hn. cbn zeta in Hn.
    pose proof (digitOf_range ch) as Hd.
    destruct (9 <? strconv.digitOf ch) eqn:Hch; [done|].
    apply Z.ltb_ge in Hch.
    apply IH in Hn as [Hall Hn]; [|lia].
    split.
    + cbn [allDigits]. rewrite Hall. by apply andb_true_intro, conj; [apply Z.leb_le|].
    + cbn [String.length]. rewrite Nat2Z.inj_succ, Z.pow_succ_r by lia.
      assert (0 < 10 ^ Z.of_nat (String.length s)) by (apply Z.pow_pos_nonneg; lia).
      nia.
Qed.

Lemma uintDigits_bound s acc n :
  strconv.uintDigits s acc = Ok n ->
  0 <= acc ->
  allDigits s = true /\ 0 <= n.
Proof.
  revert acc. induction s as [|ch s IH]; intros acc Hn Hacc.
  - injection Hn as <-. done.
  - cbn [strconv.uintDigits] in Hn. cbn zeta in Hn.
    pose proof (digitOf_range ch) as Hd.
    destruct (9 <? strconv.digitOf ch) eqn:Hch; [done|].
    apply Z.ltb_ge in Hch.
    destruct (GoInt.MaxUint64 <? acc * 10 + strconv.digitOf ch); [done|].
    apply IH in Hn as [Hall Hn]; [|lia].
    split; [|done].
    cbn [allDigits]. rewrite Hall. by apply andb_true_intro, conj; [apply Z.leb_le|].
Qed.

(** X13: an identifier [Atoi] accepts is an optional sign followed by at least
    one byte, all of them decimal digits, and its value is an [int]: the
    port handed to [proxyRequest] and used as the key of the registry is
    never out of range. *)
Theorem Atoi_accepts_only_ints s n :
  strconv.Atoi s = Ok n ->
  GoInt.inRange n /\
  exists body,
    body <> "" /\ allDigits body = true /\
    (s = body \/ s = String "+" body \/ s = String "-" body).
Proof.
  unfold strconv.Atoi. cbn zeta.
  destruct ((0 <? Z.of_nat (String.length s)) && (Z.of_nat (String.length s) <? 19))%bool
    eqn:Hlen.
  - (* fast path *)
    apply andb_prop in Hlen as [_ Hlen%Z.ltb_lt].
    destruct s as [|ch rest]; [done|].
    set (body := if strconv.isSign ch then rest else String ch rest).
    assert (Hbody : Z.of_nat (String.length body) <= 18).
    { subst body. destruct (strconv.isSign ch); cbn [String.length] in *; lia. }
    destruct body as [|c b] eqn:Hb; [done|]. rewrite <- Hb in *.
    destruct (strconv.fastDigits body 0) as [m|] eqn:Hm; [|done].
    intros [= <-].
    apply fastDigits_bound in Hm as [Hall Hm]; [|lia].
    assert (10 ^ Z.of_nat (String.length body) <= 10 ^ 18)
      by (apply Z.pow_le_mono_r; lia).
    split.
    + unfold GoInt.inRange, GoInt.MinInt, GoInt.MaxInt, GoInt.intSize.
      destruct (Ascii.eqb ch "-"); lia.
    + exists body. split; [by rewrite Hb|]. split; [done|].
      subst body. unfold strconv.isSign in *.
      destruct (Ascii.eqb ch "-") eqn:Hminus; cbn [orb] in *.
      { apply Ascii.eqb_eq in Hminus as ->. right; right. by rewrite Hb. }
      destruct (Ascii.eqb ch "+") eqn:Hplus.
      { apply Ascii.eqb_eq in Hplus as ->. right; left. by rewrite Hb. }
      left. by rewrite Hb.
  - (* ParseInt *)
    clear Hlen. unfold strconv.ParseInt.
    destruct s as [|ch rest]; [done|]. cbn zeta.
    set (body := if strconv.isSign ch then rest else String ch rest).
    unfold strconv.ParseUint.
    destruct body as [|c b] eqn:Hb; [done|]. rewrite <- Hb in *.
    destruct (strconv.uintDigits body 0) as [un|] eqn:Hun; [|done].
    apply uintDigits_bound in Hun as [Hall Hun]; [|lia].
    unfold GoInt.intSize.
    destruct (Ascii.eqb ch "-") eqn:Hminus; cbn [negb andb].
    + destruct (2 ^ (64 - 1) <? un) eqn:Hcut; [done|]. apply Z.ltb_ge in Hcut.
      intros [= <-]. split.
      * unfold GoInt.inRange, GoInt.MinInt, GoInt.MaxInt, GoInt.intSize. lia.
      * exists body. split; [by rewrite Hb|]. split; [done|].
        subst body. unfold strconv.isSign in *. rewrite Hminus in *. cbn [orb] in *.
        apply Ascii.eqb_eq in Hminus as ->. right; right. by rewrite Hb.
    + destruct (2 ^ (64 - 1) <=? un) eqn:Hcut; [done|]. apply Z.leb_gt in Hcut.
      intros [= <-]. split.
      * unfold GoInt.inRange, GoInt.MinInt, GoInt.MaxInt, GoInt.intSize. lia.
      * exists body. split; [by rewrite Hb|]. split; [done|].
        subst body. unfold strconv.isSign in *. rewrite Hminus in *. cbn [orb] in *.
        destruct (Ascii.eqb ch "+") eqn:Hplus.
        { apply Ascii.eqb_eq in Hplus as ->. right; left. by rewrite Hb. }
        left. by rewrite Hb.
Qed.

(** ** Printing a port and reading it back *)

Ltac each_digit d :=
  destruct d as [|d|d|d|d|d|d|d|d|d|d].

Lemma uintValue_acc d acc :
  uintValue d (Z.pos acc) = Z.pos (Pos.of_uint_acc d acc).
Proof.
  revert acc. induction d; intros acc; cbn [uintValue Pos.of_uint_acc];
    [done|rewrite <- IHd; f_equal; lia..].
Qed.

Lemma uintValue_of_uint d : uintValue d 0 = Z.of_N (Pos.of_uint d).
Proof.
  induction d; cbn [uintValue Pos.of_uint]; try done;
    cbn [Z.mul Z.add Z.of_N]; apply uintValue_acc.
Qed.

Lemma uintValue_to_uint p : uintValue (Pos.to_uint p) 0 = Z.pos p.
Proof. by rewrite uintValue_of_uint, Unsigned.of_to. Qed.

Lemma uintValue_ge d acc : 0 <= acc -> acc <= uintValue d acc.
Proof.
  revert acc. induction d; intros acc Hacc; cbn [uintValue]; [lia|..];
    (etransitivity; [|apply IHd; lia]); lia.
Qed.

Lemma fastDigits_string_of_uint d acc :
  strconv.fastDigits (NilEmpty.string_of_uint d) acc = Ok (uintValue d acc).
Proof.
  revert acc. induction d; intros acc; [done|..];
    cbn [NilEmpty.string_of_uint strconv.fastDigits uintValue]; apply IHd.
Qed.

Lemma uintDigits_string_of_uint d acc :
  0 <= acc ->
  uintValue d acc <= GoInt.MaxUint64 ->
  strconv.uintDigits (NilEmpty.string_of_uint d) acc = Ok (uintValue d acc).
Proof.
  revert acc. induction d; intros acc Hacc Hmax; [done|..];
    cbn [NilEmpty.string_of_uint strconv.uintDigits uintValue] in *;
    cbn zeta;
    match goal with
    | |- context [strconv.digitOf ?c] =>
        let k := eval vm_compute in (strconv.digitOf c) in
        change (strconv.digitOf c) with k
    end;
    cbn [Z.ltb Z.compare Pos.compare Pos.compare_cont];
    match goal with
    | |- context [GoInt.MaxUint64 <? ?x] =>
        pose proof (uintValue_ge d x ltac:(lia));
        destruct (Z.ltb_spec GoInt.MaxUint64 x); [lia|]
    end;
    apply IHd; lia.
Qed.

Lemma string_of_uint_digit_first d :
  d <> Decimal.Nil ->
  exists ch rest,
    NilEmpty.string_of_uint d = String ch rest /\
    strconv.isSign ch = false.
Proof.
  intros Hd. each_digit d; [done|..]; eexists _, _; split; reflexivity.
Qed.

Lemma Atoi_unsigned d :
  d <> Decimal.Nil ->
  uintValue d 0 <= GoInt.MaxInt ->
  strconv.Atoi (NilEmpty.string_of_uint d) = Ok (uintValue d 0).
Proof.
  intros Hd Hmax.
  destruct (string_of_uint_digit_first d Hd) as (ch & rest & Hs & Hsign).
  assert (Hminus : Ascii.eqb ch "-" = false).
  { unfold strconv.isSign in Hsign. by apply orb_false_elim in Hsign as [? _]. }
  pose proof (fastDigits_string_of_uint d 0) as Hfast.
  pose proof (uintDigits_string_of_uint d 0 ltac:(lia)) as Hslow.
  pose proof (uintValue_ge d 0 ltac:(lia)) as Hge.
  unfold GoInt.MaxInt, GoInt.MaxUint64, GoInt.intSize in *.
  rewrite Hs in *. unfold strconv.Atoi. cbn zeta.
  destruct (_ && _)%bool.
  - rewrite Hsign, Hfast, Hminus. done.
  - unfold strconv.ParseInt, strconv.ParseUint. cbn zeta.
    rewrite Hsign, Hslow, Hminus by lia. cbn [negb andb].
    unfold GoInt.intSize.
    destruct (Z.leb_spec (2 ^ (64 - 1)) (uintValue d 0)); [lia|done].
Qed.

Lemma Atoi_negated d :
  d <> Decimal.Nil ->
  uintValue d 0 <= - GoInt.MinInt ->
  strconv.Atoi (String "-" (NilEmpty.string_of_uint d)) = Ok (- uintValue d 0).
Proof.
  intros Hd Hmax.
  destruct (string_of_uint_digit_first d Hd) as (ch & rest & Hs & _).
  pose proof (fastDigits_string_of_uint d 0) as Hfast.
  pose proof (uintDigits_string_of_uint d 0 ltac:(lia)) as Hslow.
  unfold GoInt.MinInt, GoInt.MaxUint64, GoInt.intSize in *.
  unfold strconv.Atoi. cbn zeta.
  destruct (_ && _)%bool.
  - change (strconv.isSign "-") with true. cbn iota.
    rewrite Hs in *. rewrite Hfast. done.
  - unfold strconv.ParseInt, strconv.ParseUint. cbn zeta.
    change (strconv.isSign "-") with true. cbn iota.
    rewrite Hs in *. rewrite Hslow by lia.
    change (Ascii.eqb "-" "-") with true. cbn [negb andb].
    unfold GoInt.intSize.
    destruct (Z.ltb_spec (2 ^ (64 - 1)) (uintValue d 0)); [lia|done].
Qed.

Lemma NilZero_string_of_uint d :
  d <> Decimal.Nil -> NilZero.string_of_uint d = NilEmpty.string_of_uint d.
Proof. by destruct d. Qed.

(** X14: the decimal text [Sprintf("%d")] puts into the outbound URL for a port
    reads back, with [Atoi], as that port: for every [int], and so for every
    port the handler can hold, printing loses nothing. *)
Theorem Atoi_itoa n :
  GoInt.inRange n -> strconv.Atoi (itoa n) = Ok n.
Proof.
  intros [Hmin Hmax]. destruct n as [|p|p]; [done|..].
  - unfold itoa. cbn [Z.to_int NilZero.string_of_int].
    pose proof (Unsigned.to_uint_nonnil p) as Hnil.
    rewrite NilZero_string_of_uint, Atoi_unsigned by (by rewrite ?uintValue_to_uint).
    by rewrite uintValue_to_uint.
  - unfold itoa. cbn [Z.to_int NilZero.string_of_int].
    pose proof (Unsigned.to_uint_nonnil p) as Hnil.
    rewrite NilZero_string_of_uint, Atoi_negated by (rewrite ?uintValue_to_uint; first [done|lia]).
    by rewrite uintValue_to_uint.
Qed.

(** ** What the load loop does besides filling the registry *)

Lemma decoded_Ok l : decoded (Ok <$> l) = l.
Proof. induction l as [|a l IH]; cbn; [done|by rewrite IH]. Qed.

Lemma loadLoop_run docs σ :
  exists tr,
    (loadLoop docs σ).2
    = {| usageData := {| Apps := foldl put (Apps (usageData σ)) (decoded docs) |};
         w := w σ;
         trace := (trace σ ++ tr)%list |} /\
    logLines tr
      = (fun e => "Error decoding app from MongoDB: " ++ e) <$> decodeErrors docs /\
    persistWrites tr = [] /\
    forwards tr = [] /\
    underLock false tr = [] /\
    heldAfter false tr = false.
Proof.
  revert σ. induction docs as [|[a|e] docs IH]; intros σ.
  - exists []. cbn. rewrite app_nil_r. by destruct σ as [[?] ? ?].
  - cbn [loadLoop decoded decodeErrors foldl]. run_M.
    destruct (IH {| usageData := {| Apps := <[Port a := a]> (Apps (usageData σ)) |};
                    w := w σ;
                    trace := ((trace σ ++ [EvLock]) ++ [EvUnlock])%list |})
      as (tr & Hrun & Hlog & Hw & Hf & Hu & Hh).
    exists (EvLock :: EvUnlock :: tr). rewrite Hrun. cbn.
    by rewrite <- !app_assoc.
  - cbn [loadLoop decoded decodeErrors]. run_M.
    destruct (IH {| usageData := usageData σ; w := w σ;
                    trace := (trace σ ++
                              [EvLog ("Error decoding app from MongoDB: " ++ e)])%list |})
      as (tr & Hrun & Hlog & Hw & Hf & Hu & Hh).
    exists (EvLog ("Error decoding app from MongoDB: " ++ e) :: tr).
    rewrite Hrun. cbn. rewrite <- !app_assoc, Hlog. done.
Qed.

(** X15: the load loop skips the documents that do not decode, logging one line
    for each, in cursor order: the registry is the one the decodable
    documents alone give.  It writes nothing to the store, contacts no
    backend, sends nothing to a client, holds the mutex only around the map
    insert and leaves it free. *)
Theorem loadLoop_effects docs :
  let σ0 := {| usageData := emptyUsageData; w := newResponseWriter; trace := [] |} in
  let σ := (loadLoop docs σ0).2 in
  usageData σ = usageData (loadLoop (Ok <$> decoded docs) σ0).2 /\
  logLines (trace σ)
    = (fun e => "Error decoding app from MongoDB: " ++ e) <$> decodeErrors docs /\
  persistWrites (trace σ) = [] /\
  forwards (trace σ) = [] /\
  underLock false (trace σ) = [] /\
  heldAfter false (trace σ) = false /\
  w σ = newResponseWriter.
Proof.
  intros σ0 σ. subst σ.
  destruct (loadLoop_run docs σ0) as (tr & -> & Hlog & Hw & Hf & Hu & Hh).
  cbn [usageData w trace app].
  split; [|done].
  apply UsageData_eq. by rewrite loadLoop_Apps, decoded_Ok.
Qed.

(** ** The order in which handlers take the mutex *)

Lemma hits_Permutation p reqs reqs' :
  reqs ≡ₚ reqs' -> hits p reqs = hits p reqs'.
Proof.
  induction 1 as [|[env r] ? ? _ IH|[env1 r1] [env2 r2] ?|? ? ? _ IH1 _ IH2];
    cbn [hits]; [done| |by repeat case_match|congruence].
  by rewrite IH.
Qed.

Section OrderFacts.

Variable canon : string -> string.
Variable nre : string -> string -> option string.

(** The record of [p] after a sequence of requests, wrap-around included. *)
Lemma serve_lookup_iter reqs st p :
  Apps (serve canon nre reqs st).1 !! p
  = (fun a => mkApp (Port a) (Nat.iter (hits p reqs) GoInt.incr (Count a)))
      <$> Apps st !! p.
Proof.
  revert st. induction reqs as [|[env r] reqs IH]; intros st.
  - cbn. destruct (Apps st !! p) as [[]|]; done.
  - rewrite serve_cons_fst, IH, serveOne_lookup_routed. cbn [hits].
    destruct (routedTo p r); [|done].
    destruct (Apps st !! p) as [a|]; [|done].
    cbn [fmap option_fmap option_map Port Count]. by rewrite Nat.iter_succ_r.
Qed.

(** X16: the registry after a set of requests does not depend on the order in
    which their handlers took the mutex. *)
Theorem serve_order_irrelevant reqs reqs' st :
  reqs ≡ₚ reqs' ->
  (serve canon nre reqs st).1 = (serve canon nre reqs' st).1.
Proof.
  intros Hperm. apply UsageData_eq, map_eq. intros p.
  by rewrite !serve_lookup_iter, (hits_Permutation p _ _ Hperm).
Qed.

End OrderFacts.

(** ** The further properties on concrete inputs *)

Section MoreConcrete.

Import Examples MoreExamples.

Lemma inRange_small z : -1000000 <= z <= 1000000 -> GoInt.inRange z.
Proof.
  unfold GoInt.inRange, GoInt.MinInt, GoInt.MaxInt, GoInt.intSize. lia.
Qed.

Lemma wellFormed_st9000 : wellFormed st9000.
Proof.
  intros p a Hp. unfold st9000 in Hp. cbn [Apps] in Hp.
  apply lookup_singleton_Some in Hp as [<- <-].
  split; [done|]. split; apply inRange_small; cbn; lia.
Qed.

Lemma response_fixed_before_counting_witness :
  strconv.Atoi (reqAppID req9000) = Ok 9000 /\
  w (serveOne canonId acceptAll envUp req9000 st9000)
  = w (proxyRequest canonId acceptAll envUp 9000 req9000
         {| usageData := st9000; w := newResponseWriter; trace := [] |}).2.
Proof.
  split; [reflexivity|].
  exact (response_fixed_before_counting canonId acceptAll envUp req9000 st9000 9000 eq_refl).
Defined.

Lemma construction_failure_still_counted_witness :
  strconv.Atoi (reqAppID reqNeg) = Ok (-5) /\
  rejectAll (reqMethod reqNeg) (proxyURL (-5) reqNeg) = Some "invalid port" /\
  let σ := serveOne canonId rejectAll envUp reqNeg st9000 in
  wStatus (w σ) = Some 500 /\ forwards (trace σ) = [] /\ usageData σ = st9000.
Proof.
  do 2 (split; [reflexivity|]).
  destruct (construction_failure_still_counted canonId rejectAll envUp reqNeg st9000
              (-5) _ eq_refl eq_refl) as (Hstatus & _ & Hforwards & _ & Hnone).
  destruct (Hnone eq_refl) as (Hst & _).
  exact (conj Hstatus (conj Hforwards Hst)).
Defined.

Lemma persistence_write_matches_memory_witness :
  let σ := serveOne canonId acceptAll envStoreDown req9000 st9000 in
  (9000, 6) ∈ persistWrites (trace σ) /\
  exists a, Apps (usageData σ) !! 9000 = Some a /\ Count a = 6.
Proof.
  assert (Hin : (9000, 6) ∈ persistWrites
                  (trace (serveOne canonId acceptAll envStoreDown req9000 st9000)))
    by apply list_elem_of_here.
  split; [exact Hin|].
  destruct (persistence_write_matches_memory canonId acceptAll envStoreDown req9000 st9000)
    as [_ Hmem].
  exact (proj2 (Hmem 9000 6 Hin)).
Defined.


Lemma serve_frame_witness :
  hits 9000 reqsElsewhere = O /\
  Apps (serve canonId acceptAll reqsElsewhere st9000).1 !! 9000 = Some app9000 /\
  writesFor 9000 (allEvents (serve canonId acceptAll reqsElsewhere st9000).2) = [].
Proof.
  split; [reflexivity|].
  exact (serve_frame canonId acceptAll reqsElsewhere st9000 9000 eq_refl).
Defined.

Lemma serve_never_registers_witness :
  Apps st9000 !! 7000 = None /\
  hits 7000 reqs3 = 1%nat /\
  Apps (serve canonId acceptAll reqs3 st9000).1 !! 7000 = None /\
  writesFor 7000 (allEvents (serve canonId acceptAll reqs3 st9000).2) = [].
Proof.
  do 2 (split; [reflexivity|]).
  exact (serve_never_registers canonId acceptAll reqs3 st9000 7000 eq_refl).
Defined.

Lemma last_write_is_memory_witness :
  last (writesFor 9000 (allEvents (serve canonId acceptAll reqs3 st9000).2)) = Some 7 /\
  exists a, Apps (serve canonId acceptAll reqs3 st9000).1 !! 9000 = Some a /\
            Count a = 7.
Proof.
  split; [reflexivity|].
  exact (last_write_is_memory canonId acceptAll reqs3 st9000 9000 7 eq_refl).
Defined.

Lemma serve_wellFormed_witness :
  wellFormed st9000 /\ wellFormed (serve canonId acceptAll reqs3 st9000).1.
Proof.
  split; [exact wellFormed_st9000|].
  exact (serve_wellFormed canonId acceptAll reqs3 st9000 wellFormed_st9000).
Defined.

Lemma startup_wellFormed_witness :
  Forall intRecord (decoded docsMixed) /\
  exists st,
    startup (Ok {| documents := docsMixed; cursorErr := None |}) = Ok st /\
    wellFormed st.
Proof.
  assert (Hall : Forall intRecord (decoded docsMixed)).
  { cbn. repeat constructor; apply inRange_small; cbn; lia. }
  split; [exact Hall|].
  exact (startup_wellFormed docsMixed Hall).
Defined.

Lemma copyHeader_order_irrelevant_witness :
  entries1 ≡ₚ entries2 /\
  NoDup (canonId <$> entries1.*1) /\
  copyHeader canonId entries1 ∅ = copyHeader canonId entries2 ∅.
Proof.
  assert (Hperm : entries1 ≡ₚ entries2) by apply perm_swap.
  assert (Hnd : NoDup (canonId <$> entries1.*1)) by (cbn; compute_done).
  split; [exact Hperm|]. split; [exact Hnd|].
  exact (copyHeader_order_irrelevant canonId entries1 entries2 ∅ Hperm Hnd).
Defined.

Lemma Atoi_accepts_only_ints_witness :
  strconv.Atoi "-5" = Ok (-5) /\
  GoInt.inRange (-5) /\
  exists body,
    body <> "" /\ allDigits body = true /\
    ("-5" = body \/ "-5" = String "+" body \/ "-5" = String "-" body).
Proof.
  split; [reflexivity|].
  exact (Atoi_accepts_only_ints "-5" (-5) eq_refl).
Defined.

Lemma Atoi_itoa_witness :
  GoInt.inRange 9000 /\ strconv.Atoi (itoa 9000) = Ok 9000.
Proof.
  assert (Hr : GoInt.inRange 9000) by (apply inRange_small; lia).
  split; [exact Hr|].
  exact (Atoi_itoa 9000 Hr).
Defined.

Lemma serve_order_irrelevant_witness :
  reqs3 ≡ₚ rev reqs3 /\
  (serve canonId acceptAll reqs3 st9000).1
  = (serve canonId acceptAll (rev reqs3) st9000).1.
Proof.
  assert (Hperm : reqs3 ≡ₚ rev reqs3) by apply Permutation_rev.
  split; [exact Hperm|].
  exact (serve_order_irrelevant canonId acceptAll reqs3 (rev reqs3) st9000 Hperm).
Defined.

End MoreConcrete.

(** ** Counting never reaches the client *)

Section ResponseFacts.

Variable canon : string -> string.
Variable nre : string -> string -> option string.

Lemma serve_cons_snd env r reqs st :
  (serve canon nre ((env, r) :: reqs) st).2
  = (w (serveOne canon nre env r st), trace (serveOne canon nre env r st))
    :: (serve canon nre reqs (usageData (serveOne canon nre env r st))).2.
Proof. cbn. by destruct (serve _ _ _ _). Qed.

Lemma serveOne_forwards env r st :
  forwards (trace (serveOne canon nre env r st)) =
    match strconv.Atoi (reqAppID r) with
    | Ok port =>
        match nre (reqMethod r) (proxyURL port r) with
        | Some _ => []
        | None => [outbound port r]
        end
    | Err _ => []
    end.
Proof.
  rewrite serveOne_trace.
  destruct (strconv.Atoi _) as [port|]; [|done].
  destruct (nre _ _); destruct (Apps st !! port);
    try destruct (UpdateOne env _ _); reflexivity.
Qed.

(** X17: what the clients are sent, and what is sent to the backends, does
    not depend on the registry: a sequence of requests gets the same
    responses and causes the same outbound exchanges whatever records and
    counts the registry starts with. *)
Theorem responses_independent_of_registry reqs st st' :
  (serve canon nre reqs st).2.*1 = (serve canon nre reqs st').2.*1 /\
  forwards <$> (serve canon nre reqs st).2.*2
  = forwards <$> (serve canon nre reqs st').2.*2.
Proof.
  revert st st'. induction reqs as [|[env r] reqs IH]; intros st st'; [done|].
  rewrite !serve_cons_snd. cbn [fmap list_fmap fst snd].
  destruct (IH (usageData (serveOne canon nre env r st))
               (usageData (serveOne canon nre env r st'))) as [IHw IHf].
  split.
  - f_equal; [by rewrite !serveOne_w|exact IHw].
  - f_equal; [by rewrite !serveOne_forwards|exact IHf].
Qed.

End ResponseFacts.
